(** * TaskManager: the task lifecycle and its in-memory repository

    A shallow embedding of [src/source/index.ts]: the classes [Task],
    [TaskRepository] and [TaskService], and the listeners that [TaskView] and
    [TaskManager] register.

    JavaScript objects have identity: [createTask] returns a reference to a
    [Task] object, the repository's array holds references, and
    [alterarStatus] mutates the object behind a reference.  The embedding
    therefore keeps an explicit object heap (a list of task records indexed by
    location) next to the repository's array of references. *)

From Stdlib Require Import ZArith Lia Ascii String.
From stdpp Require Import base option list sorting strings.

Local Open Scope Z_scope.

(** ** Data model *)

(** A JavaScript [Date]: a time value in milliseconds, or the invalid date that
    [new Date(str)] yields on unparsable input. *)
Inductive Date : Type :=
  | InvalidDate
  | TimeValue (ms : Z).

(** Object references: the index of the object in the heap. *)
Abbreviation loc := nat.

Module Task.

(** [class Task]: five public fields.  [id] is a JavaScript number; the only
    ids the service ever stores come from [Date.now()], an integer number of
    milliseconds, hence [Z]. *)
Record t : Type := mk {
  id : Z;
  title : string;
  description : string;
  dueDate : Date;
  status : string
}.

(** [new Task(id, title, description, dueDate)]: the fifth constructor
    parameter is left to its default, ["pendente"]. *)
Definition new (id : Z) (title description : string) (dueDate : Date) : t :=
  mk id title description dueDate "pendente".

(** [alterarStatus(newStatus) { this.status = newStatus; }] *)
Definition alterarStatus (newStatus : string) (this : t) : t :=
  mk (id this) (title this) (description this) (dueDate this) newStatus.

(** [alterarDescricao(newDescription) { this.description = newDescription; }] *)
Definition alterarDescricao (newDescription : string) (this : t) : t :=
  mk (id this) (title this) newDescription (dueDate this) (status this).

(** [alterarDataVencimento(newDueDate) { this.dueDate = newDueDate; }] *)
Definition alterarDataVencimento (newDueDate : Date) (this : t) : t :=
  mk (id this) (title this) (description this) newDueDate (status this).

End Task.

(** The two status strings the program uses. *)
Definition pendente : string := "pendente".
Definition concluida : string := "concluída".

(** The program state: the heap of [Task] objects and the field
    [TaskRepository.tasks], an array of references into it. *)
Record State : Type := mkState {
  heap : list Task.t;
  tasks : list loc
}.

(** The state after [new TaskRepository()]: no object, an empty array. *)
Definition initial : State := mkState [] [].

(** Reading field [id] through a reference. *)
Definition id_at (h : list Task.t) (l : loc) : option Z := Task.id <$> h !! l.

(** Reading field [status] through a reference. *)
Definition status_at (h : list Task.t) (l : loc) : option string :=
  Task.status <$> h !! l.

(** The callback [task => task.id === id], as a decidable predicate on
    references. *)
Definition has_id (h : list Task.t) (i : Z) (l : loc) : Prop := id_at h l = Some i.

#[global] Instance has_id_dec h i l : Decision (has_id h i l).
Proof. unfold has_id. apply _. Defined.

(** ** TaskRepository *)

Module TaskRepository.

(** [adicionarTarefa(task) { this.tasks.push(task); }] *)
Definition adicionarTarefa (task : loc) (s : State) : State :=
  mkState (heap s) (tasks s ++ [task]).

(** [removeTask(id) { this.tasks = this.tasks.filter(task => task.id !== id); }] *)
Definition removeTask (i : Z) (s : State) : State :=
  mkState (heap s) (filter (λ l, ¬ has_id (heap s) i l) (tasks s)).

(** [listarTarefas() { return this.tasks; }] *)
Definition listarTarefas (s : State) : list loc := tasks s.

(** [buscarTarefaPorId(id) { return this.tasks.find(task => task.id === id); }]
    [None] stands for [undefined]. *)
Definition buscarTarefaPorId (i : Z) (s : State) : option loc :=
  snd <$> list_find (has_id (heap s) i) (tasks s).

End TaskRepository.

(** ** TaskService *)

Module TaskService.

(** [createTask(title, description, dueDate)]: [now] is the value that
    [Date.now()] returns during the call.  The new object is allocated at the
    end of the heap; its reference is pushed and returned. *)
Definition createTask (now : Z) (title description : string) (dueDate : Date)
    (s : State) : loc * State :=
  let task := length (heap s) in
  let s1 := mkState (heap s ++ [Task.new now title description dueDate]) (tasks s) in
  (task, TaskRepository.adicionarTarefa task s1).

(** [taskDone(id)]: [if (task) task.alterarStatus("concluída");] *)
Definition taskDone (i : Z) (s : State) : State :=
  match TaskRepository.buscarTarefaPorId i s with
  | Some task => mkState (alter (Task.alterarStatus concluida) task (heap s)) (tasks s)
  | None => s
  end.

(** [removeTask(id) { this.repository.removeTask(id); }] *)
Definition removeTask (i : Z) (s : State) : State :=
  TaskRepository.removeTask i s.

(** [listarTarefas() { return this.repository.listarTarefas(); }] *)
Definition listarTarefas (s : State) : list loc :=
  TaskRepository.listarTarefas s.

End TaskService.

(** ** Sequences of lifecycle operations *)

Inductive op : Type :=
  | Create (now : Z) (title description : string) (dueDate : Date)
  | MarkDone (i : Z)
  | Remove (i : Z)
  | ListAll.

(** One call on the service; the value it returns is dropped. *)
Definition step (o : op) (s : State) : State :=
  match o with
  | Create now title description dueDate =>
      snd (TaskService.createTask now title description dueDate s)
  | MarkDone i => TaskService.taskDone i s
  | Remove i => TaskService.removeTask i s
  | ListAll => s
  end.

(** Calls in sequence, the head of the list first. *)
Definition run (os : list op) (s : State) : State := foldl (λ s o, step o s) s os.

(** The states the service can reach from a fresh repository. *)
Inductive reachable : State → Prop :=
  | reachable_initial : reachable initial
  | reachable_step o s : reachable s → reachable (step o s).

(** Every reference held by the repository points to an allocated object.
    JavaScript has no dangling references, so every state of the program
    satisfies this. *)
Definition wf (s : State) : Prop := Forall (λ l, (l < length (heap s))%nat) (tasks s).

(** The ids of the stored tasks, in the order of the array. *)
Definition ids (s : State) : list Z := omap (id_at (heap s)) (tasks s).

(** References are allocated in increasing order, so the order of the
    references is the order in which the tasks were created. *)
Definition in_creation_order (s : State) : Prop := StronglySorted lt (tasks s).

(** The only status values a task of a reachable state has. *)
Definition statuses_ok (s : State) : Prop :=
  Forall (λ t, Task.status t = pendente ∨ Task.status t = concluida) (heap s).

(** ** Concrete runs

    The scenario of the specification: "Buy milk" is created, then "Pay rent".
    [Date.now()] is 2024-01-01T00:00:00.000Z at the first call. *)

Definition now0 : Z := 1704067200000.

Definition buy_milk (now : Z) : op :=
  Create now "Buy milk" "2% fat" (TimeValue 1704844800000).

Definition pay_rent (now : Z) : op :=
  Create now "Pay rent" "" (TimeValue 1704412800000).

(** One task in the store. *)
Definition one_task : State := run [buy_milk now0] initial.

(** Two tasks, created one millisecond apart. *)
Definition two_tasks : State := run [buy_milk now0; pay_rent (now0 + 1)] initial.

(** Two tasks, created within the same millisecond. *)
Definition same_ms : State := run [buy_milk now0; pay_rent now0] initial.

(** ** Method calls through a reference

    [task.m(...)] on a reference [task]: the object behind the reference is
    replaced by what the method makes of it; the repository is not involved.
    [TaskService.taskDone] is such a call of [alterarStatus] on the reference
    that [buscarTarefaPorId] returned. *)
Definition call (method : Task.t → Task.t) (task : loc) (s : State) : State :=
  mkState (alter method task (heap s)) (tasks s).

(** The three setters of [Task], each with its argument. *)
Inductive setter : Type :=
  | AlterarStatus (newStatus : string)
  | AlterarDescricao (newDescription : string)
  | AlterarDataVencimento (newDueDate : Date).

Definition setter_method (m : setter) : Task.t → Task.t :=
  match m with
  | AlterarStatus newStatus => Task.alterarStatus newStatus
  | AlterarDescricao newDescription => Task.alterarDescricao newDescription
  | AlterarDataVencimento newDueDate => Task.alterarDataVencimento newDueDate
  end.

(** The values that [Date.now()] returned to the [createTask] calls of a
    sequence, in the order of the calls. *)
Definition timestamps (os : list op) : list Z :=
  omap (λ o, match o with Create now _ _ _ => Some now | _ => None end) os.

(** ** TaskView and TaskManager

    The container [#tasks-container] as the list of the [li] elements that
    [renderListTask] appended to it.  The markup of the template is not
    modelled: an element is recorded as the four values interpolated into it,
    in the order of the template, and the task object that its two click
    listeners close over.  The text shown for the due date is what
    [toLocaleDateString("pt-BR", options)] makes of the [Date]; the element
    records the [Date].

    The template is assigned to [innerHTML], so the browser parses the
    interpolated texts as markup.  A text without the character [<] becomes a
    text node and the parsed element has the structure of the template: the two
    [querySelector] calls find the two buttons of the template.  This is the
    case that is modelled; see [plain] and [event_modelled]. *)
Record Row : Type := mkRow {
  row_task : loc;
  row_title : string;
  row_description : string;
  row_dueDate : Date;
  row_status : string
}.

(** The running application: the repository behind the service and the
    children of the container. *)
Record App : Type := mkApp {
  store : State;
  container : list Row
}.

Module TaskView.

(** The body of the [forEach] callback: the element built for one task. *)
Definition row (h : list Task.t) (task : loc) : option Row :=
  (λ t, mkRow task (Task.title t) (Task.description t) (Task.dueDate t)
          (Task.status t)) <$> h !! task.

(** [renderListTask()]: the container is emptied and gets one element per task
    of [taskService.listarTarefas()], in the order of the array. *)
Definition renderListTask (s : State) : list Row :=
  omap (row (heap s)) (TaskService.listarTarefas s).

(** The click listener of [.complete-task] in the element of [task]:
    [this.taskService.taskDone(task.id); this.renderListTask();].  [task.id] is
    read when the click happens. *)
Definition complete_click (task : loc) (a : App) : App :=
  match id_at (heap (store a)) task with
  | Some i =>
      let s := TaskService.taskDone i (store a) in mkApp s (renderListTask s)
  | None => a
  end.

(** The click listener of [.delete-task] in the element of [task]:
    [this.taskService.removeTask(task.id); this.renderListTask();]. *)
Definition delete_click (task : loc) (a : App) : App :=
  match id_at (heap (store a)) task with
  | Some i =>
      let s := TaskService.removeTask i (store a) in mkApp s (renderListTask s)
  | None => a
  end.

End TaskView.

Module TaskManager.

(** The state after [taskManager.iniciar()]: a new repository, and the
    container as the first [renderListTask()] leaves it. *)
Definition iniciar : App := mkApp initial (TaskView.renderListTask initial).

(** The submit listener of [#form-create-task]: the title and the description
    are the values of the two inputs, [dueDate] is [new Date(...)] of the third;
    [this.taskService.createTask(title, description, dueDate);
     this.taskView.renderListTask();]. *)
Definition submit (now : Z) (title description : string) (dueDate : Date)
    (a : App) : App :=
  let s := snd (TaskService.createTask now title description dueDate (store a)) in
  mkApp s (TaskView.renderListTask s).

End TaskManager.

(** A text that holds no [<]. *)
Definition plain (text : string) : Prop :=
  forallb (λ c, negb (Ascii.eqb c "<"%char)) (String.list_ascii_of_string text)
  = true.

(** What the user can do: submit the form, or click one of the two buttons of
    the element at position [k] of the container, which runs the listener
    that [renderListTask] registered on that button. *)
Inductive event : Type :=
  | Submit (now : Z) (title description : string) (dueDate : Date)
  | ClickComplete (k : nat)
  | ClickDelete (k : nat).

(** The listener that an event runs.  A button that is not in the container
    cannot be clicked: such an event changes nothing. *)
Definition dispatch (e : event) (a : App) : App :=
  match e with
  | Submit now title description dueDate =>
      TaskManager.submit now title description dueDate a
  | ClickComplete k =>
      match container a !! k with
      | Some r => TaskView.complete_click (row_task r) a
      | None => a
      end
  | ClickDelete k =>
      match container a !! k with
      | Some r => TaskView.delete_click (row_task r) a
      | None => a
      end
  end.

(** Events in sequence, the head of the list first. *)
Definition dispatch_all (es : list event) (a : App) : App :=
  foldl (λ a e, dispatch e a) a es.

(** The events within the model of the container: the submitted title and
    description are plain texts. *)
Definition event_modelled (e : event) : Prop :=
  match e with
  | Submit _ title description _ => plain title ∧ plain description
  | ClickComplete _ | ClickDelete _ => True
  end.

(** The states of the running application, under such events. *)
Inductive app_reachable : App → Prop :=
  | app_reachable_iniciar : app_reachable TaskManager.iniciar
  | app_reachable_dispatch e a :
      event_modelled e → app_reachable a → app_reachable (dispatch e a).


(** The application after the two submissions of the scenario, one millisecond
    apart, and within the same millisecond. *)
Definition two_rows : App :=
  dispatch_all [Submit now0 "Buy milk" "2% fat" (TimeValue 1704844800000);
                Submit (now0 + 1) "Pay rent" "" (TimeValue 1704412800000)]
    TaskManager.iniciar.


(** ** Basic facts about the heap and the callbacks *)

Section heap_facts.
Implicit Types (h : list Task.t) (l : loc) (i : Z) (s : State).

Lemma has_id_lookup h i l :
  has_id h i l ↔ ∃ t, h !! l = Some t ∧ Task.id t = i.
Proof.
  unfold has_id, id_at. rewrite fmap_Some. split.
  - intros (t & Ht & ->). by exists t.
  - intros (t & Ht & <-). by exists t.
Qed.

Lemma has_id_allocated h i l : has_id h i l → (l < length h)%nat.
Proof.
  intros (t & Ht & _)%has_id_lookup. by eapply lookup_lt_Some.
Qed.

(** [alterarStatus] writes the field [status] and no other. *)
Lemma alterarStatus_fields st t :
  Task.id (Task.alterarStatus st t) = Task.id t
  ∧ Task.title (Task.alterarStatus st t) = Task.title t
  ∧ Task.description (Task.alterarStatus st t) = Task.description t
  ∧ Task.dueDate (Task.alterarStatus st t) = Task.dueDate t
  ∧ Task.status (Task.alterarStatus st t) = st.
Proof. by destruct t. Qed.

Lemma alterarStatus_twice st t :
  Task.alterarStatus st (Task.alterarStatus st t) = Task.alterarStatus st t.
Proof. by destruct t. Qed.

(** Changing a status through one reference changes no id. *)
Lemma id_at_alterarStatus st h l l' :
  id_at (alter (Task.alterarStatus st) l h) l' = id_at h l'.
Proof.
  unfold id_at. destruct (decide (l = l')) as [->|Hne].
  - rewrite list_lookup_alter_eq. by destruct (h !! l') as [[]|].
  - by rewrite list_lookup_alter_ne.
Qed.

Lemma has_id_alterarStatus st h l i l' :
  has_id (alter (Task.alterarStatus st) l h) i l' ↔ has_id h i l'.
Proof. unfold has_id. by rewrite id_at_alterarStatus. Qed.

(** Allocating a new object changes no existing one. *)
Lemma id_at_alloc h t l : (l < length h)%nat → id_at (h ++ [t]) l = id_at h l.
Proof. intros Hl. unfold id_at. by rewrite lookup_app_l. Qed.

Lemma id_at_alloc_new h t : id_at (h ++ [t]) (length h) = Some (Task.id t).
Proof. unfold id_at. by rewrite list_lookup_middle. Qed.

End heap_facts.

(** ** What [find] and [filter] compute *)

Section repository_facts.
Implicit Types (l : loc) (i : Z) (s : State).

(** [find] returns the first reference, in array order, whose task has the
    id. *)
Lemma buscarTarefaPorId_Some i s l :
  TaskRepository.buscarTarefaPorId i s = Some l ↔
  ∃ k, tasks s !! k = Some l ∧ has_id (heap s) i l
       ∧ ∀ j l', tasks s !! j = Some l' → (j < k)%nat → ¬ has_id (heap s) i l'.
Proof.
  unfold TaskRepository.buscarTarefaPorId. rewrite fmap_Some. split.
  - intros ([k l'] & Hfind & ->). apply list_find_Some in Hfind. eauto.
  - intros (k & Hk). exists (k, l). split; [|done]. by apply list_find_Some.
Qed.

Lemma buscarTarefaPorId_None i s :
  TaskRepository.buscarTarefaPorId i s = None ↔
  ∀ l, l ∈ tasks s → ¬ has_id (heap s) i l.
Proof.
  unfold TaskRepository.buscarTarefaPorId.
  by rewrite fmap_None, list_find_None, Forall_forall.
Qed.

Lemma buscarTarefaPorId_is_Some i s :
  is_Some (TaskRepository.buscarTarefaPorId i s) ↔
  ∃ l, l ∈ tasks s ∧ has_id (heap s) i l.
Proof.
  split.
  - intros [l (k & Hk & Hid & _)%buscarTarefaPorId_Some].
    exists l. split; [by eapply list_elem_of_lookup_2|done].
  - intros (l & Hl & Hid). apply not_eq_None_Some.
    rewrite buscarTarefaPorId_None. naive_solver.
Qed.

Lemma buscarTarefaPorId_found i s l :
  TaskRepository.buscarTarefaPorId i s = Some l →
  l ∈ tasks s ∧ ∃ t, heap s !! l = Some t ∧ Task.id t = i.
Proof.
  intros (k & Hk & Hid & _)%buscarTarefaPorId_Some. split.
  - by eapply list_elem_of_lookup_2.
  - by apply has_id_lookup.
Qed.

(** The result of [find] depends on the array and on the ids only. *)
Lemma buscarTarefaPorId_ext i s s' :
  tasks s' = tasks s →
  (∀ l, id_at (heap s') l = id_at (heap s) l) →
  TaskRepository.buscarTarefaPorId i s' = TaskRepository.buscarTarefaPorId i s.
Proof.
  intros Ht Hid. unfold TaskRepository.buscarTarefaPorId. rewrite Ht.
  f_equal. apply list_find_ext. intros l. unfold has_id. by rewrite Hid.
Qed.

Lemma removeTask_elem_of i s l :
  l ∈ tasks (TaskRepository.removeTask i s) ↔ l ∈ tasks s ∧ ¬ has_id (heap s) i l.
Proof. simpl. rewrite list_elem_of_filter. tauto. Qed.

(** Filtering with a callback that rejects nothing returns the same
    elements. *)
Lemma filter_all {A} (P : A → Prop) `{!∀ x, Decision (P x)} (xs : list A) :
  Forall P xs → filter P xs = xs.
Proof.
  induction 1 as [|x xs HP _ IH]; [done|].
  by rewrite filter_cons_True, IH.
Qed.

(** [filter] keeps a property that every element has. *)
Lemma Forall_filter_keep {A} (P Q : A → Prop) `{!∀ x, Decision (P x)}
    (xs : list A) :
  Forall Q xs → Forall Q (filter P xs).
Proof.
  rewrite !Forall_forall. intros HQ x [_ Hx]%list_elem_of_filter. by apply HQ.
Qed.

Lemma removeTask_absent i s :
  (∀ l, l ∈ tasks s → ¬ has_id (heap s) i l) →
  TaskRepository.removeTask i s = s.
Proof.
  intros Habs. destruct s as [h ts]. unfold TaskRepository.removeTask. simpl in *.
  f_equal. apply filter_all. by apply Forall_forall.
Qed.

(** An id is in the store when some stored reference leads to a task that has
    it. *)
Lemma elem_of_ids i s : i ∈ ids s ↔ ∃ l, l ∈ tasks s ∧ has_id (heap s) i l.
Proof. unfold ids, has_id. apply list_elem_of_omap. Qed.

Lemma buscarTarefaPorId_absent i s :
  i ∉ ids s ↔ TaskRepository.buscarTarefaPorId i s = None.
Proof.
  rewrite elem_of_ids, buscarTarefaPorId_None. split.
  - intros Habs l Hl Hid. apply Habs. by exists l.
  - intros Habs (l & Hl & Hid). by apply (Habs l).
Qed.

Lemma buscarTarefaPorId_present i s :
  i ∈ ids s ↔ is_Some (TaskRepository.buscarTarefaPorId i s).
Proof. by rewrite elem_of_ids, buscarTarefaPorId_is_Some. Qed.

End repository_facts.

(** ** What each service call does to the state *)

Section service_facts.
Implicit Types (l : loc) (i : Z) (s : State).

Lemma createTask_heap now ti de du s :
  heap (snd (TaskService.createTask now ti de du s))
  = heap s ++ [Task.new now ti de du].
Proof. reflexivity. Qed.

Lemma createTask_tasks now ti de du s :
  tasks (snd (TaskService.createTask now ti de du s))
  = tasks s ++ [fst (TaskService.createTask now ti de du s)].
Proof. reflexivity. Qed.

Lemma taskDone_tasks i s : tasks (TaskService.taskDone i s) = tasks s.
Proof.
  unfold TaskService.taskDone.
  by destruct (TaskRepository.buscarTarefaPorId i s).
Qed.

Lemma taskDone_length i s :
  length (heap (TaskService.taskDone i s)) = length (heap s).
Proof.
  unfold TaskService.taskDone.
  destruct (TaskRepository.buscarTarefaPorId i s); [|done].
  apply length_alter.
Qed.

(** [taskDone] changes no id. *)
Lemma taskDone_id_at i s l :
  id_at (heap (TaskService.taskDone i s)) l = id_at (heap s) l.
Proof.
  unfold TaskService.taskDone.
  destruct (TaskRepository.buscarTarefaPorId i s); [|done].
  apply id_at_alterarStatus.
Qed.

(** What one object looks like after [taskDone]: the found one has its status
    overwritten, every other one is as before. *)
Lemma taskDone_lookup i s l :
  heap (TaskService.taskDone i s) !! l =
  if decide (TaskRepository.buscarTarefaPorId i s = Some l)
  then Task.alterarStatus concluida <$> heap s !! l
  else heap s !! l.
Proof.
  unfold TaskService.taskDone.
  destruct (TaskRepository.buscarTarefaPorId i s) as [l'|] eqn:Hfind.
  - simpl. case_decide as Hl.
    + injection Hl as ->. apply list_lookup_alter_eq.
    + apply list_lookup_alter_ne. congruence.
  - by case_decide.
Qed.

Lemma taskDone_absent i s : i ∉ ids s → TaskService.taskDone i s = s.
Proof.
  intros Hfind%buscarTarefaPorId_absent.
  unfold TaskService.taskDone. by rewrite Hfind.
Qed.


End service_facts.

(** ** Invariants of the reachable states *)

Section invariants.
Implicit Types (l : loc) (i : Z) (s : State).

Lemma wf_step o s : wf s → wf (step o s).
Proof.
  unfold wf. intros Hwf. destruct o as [now ti de du|i|i|]; simpl.
  - rewrite length_app. simpl. apply Forall_app. split.
    + eapply Forall_impl; [exact Hwf|]. simpl. intros. lia.
    + apply Forall_singleton. lia.
  - by rewrite taskDone_tasks, taskDone_length.
  - by apply Forall_filter_keep.
  - done.
Qed.

Lemma reachable_wf s : reachable s → wf s.
Proof.
  induction 1 as [|o s _ IH]; [by apply Forall_nil|by apply wf_step].
Qed.

Lemma reachable_run os s : reachable s → reachable (run os s).
Proof.
  revert s. induction os as [|o os IH]; intros s Hs; [done|].
  simpl. apply IH. by constructor.
Qed.

Lemma StronglySorted_filter {A} (R : relation A) (P : A → Prop)
    `{!∀ x, Decision (P x)} (xs : list A) :
  StronglySorted R xs → StronglySorted R (filter P xs).
Proof.
  induction 1 as [|x xs _ IH Hx]; [constructor|].
  rewrite filter_cons. case_decide; [|done].
  constructor; [done|]. by apply Forall_filter_keep.
Qed.

Lemma in_creation_order_step o s :
  wf s → in_creation_order s → in_creation_order (step o s).
Proof.
  unfold in_creation_order, wf. intros Hwf Hs.
  destruct o as [now ti de du|i|i|]; simpl.
  - apply StronglySorted_app_2; [|done|repeat constructor].
    intros x1 x2 Hx1 ->%list_elem_of_singleton.
    by eapply Forall_forall in Hwf.
  - by rewrite taskDone_tasks.
  - by apply StronglySorted_filter.
  - done.
Qed.

Lemma reachable_in_creation_order s : reachable s → in_creation_order s.
Proof.
  induction 1 as [|o s Hs IH]; [constructor|].
  apply in_creation_order_step; [by apply reachable_wf|done].
Qed.

(** In a sorted array, an earlier position holds an earlier reference. *)
Lemma in_creation_order_lookup s j k l' l :
  in_creation_order s → tasks s !! j = Some l' → tasks s !! k = Some l →
  (j < k)%nat → (l' < l)%nat.
Proof.
  unfold in_creation_order. intros Hs Hj Hk Hjk.
  rewrite <- (take_drop k (tasks s)) in Hs.
  eapply StronglySorted_app_1_elem_of; [exact Hs| |].
  - apply elem_of_take. eauto.
  - eapply list_elem_of_lookup_2. by rewrite lookup_drop, Nat.add_0_r.
Qed.

Lemma statuses_ok_step o s : statuses_ok s → statuses_ok (step o s).
Proof.
  unfold statuses_ok. intros Hs. destruct o as [now ti de du|i|i|]; simpl.
  - apply Forall_app. split; [done|]. apply Forall_singleton. by left.
  - unfold TaskService.taskDone.
    destruct (TaskRepository.buscarTarefaPorId i s) as [l|]; [|done]. simpl.
    apply Forall_alter; [done|]. intros t _ _. by right.
  - done.
  - done.
Qed.

Lemma reachable_statuses_ok s : reachable s → statuses_ok s.
Proof.
  induction 1 as [|o s _ IH]; [by apply Forall_nil|by apply statuses_ok_step].
Qed.

End invariants.

(** ** The status of a task over time *)

Section status_over_time.
Implicit Types (l : loc) (i : Z) (s : State) (o : op).

Lemma pendente_ne_concluida : pendente ≠ concluida.
Proof. discriminate. Qed.

(** One call, any state: an existing object stays where it is, keeps its id,
    title, description and due date, and its status is either untouched or
    set to ["concluída"] by [taskDone] called on the id of that object. *)
Lemma step_object o s l t :
  heap s !! l = Some t →
  ∃ t', heap (step o s) !! l = Some t'
    ∧ Task.id t' = Task.id t
    ∧ Task.title t' = Task.title t
    ∧ Task.description t' = Task.description t
    ∧ Task.dueDate t' = Task.dueDate t
    ∧ (Task.status t' = Task.status t
       ∨ (Task.status t' = concluida ∧ o = MarkDone (Task.id t))).
Proof.
  intros Hl. destruct o as [now ti de du|i|i|]; simpl.
  - exists t. split; [|by auto 10]. apply lookup_app_l_Some, Hl.
  - rewrite taskDone_lookup, Hl. case_decide as Hfind.
    + apply buscarTarefaPorId_found in Hfind as (_ & t0 & Ht0 & Hid).
      assert (t0 = t) as -> by congruence.
      exists (Task.alterarStatus concluida t). simpl.
      split; [done|]. rewrite Hid. by auto 10.
    + exists t. by auto 10.
  - exists t. by auto 10.
  - exists t. by auto 10.
Qed.

(** C2. From any reachable state and over any sequence of calls to
    [createTask], [taskDone], [removeTask] and [listarTarefas], a task object
    that exists keeps existing and its status, which is ["pendente"] or
    ["concluída"], either stays what it was or has gone from ["pendente"] to
    ["concluída"], and then [taskDone] on its id is among the calls; a
    ["concluída"] status stays ["concluída"].  [removeTask] leaves every
    object, hence every status, as it is: it drops the references to the tasks
    with the id from the array. *)
Theorem status_moves_only_from_pendente_to_concluida s os l t :
  reachable s →
  heap s !! l = Some t →
  ∃ t', heap (run os s) !! l = Some t'
    ∧ Task.id t' = Task.id t
    ∧ (Task.status t = pendente ∨ Task.status t = concluida)
    ∧ (Task.status t' = Task.status t
       ∨ (Task.status t = pendente ∧ Task.status t' = concluida
          ∧ MarkDone (Task.id t) ∈ os))
    ∧ (Task.status t = concluida → Task.status t' = concluida)
    ∧ (∀ i, heap (step (Remove i) s) = heap s
            ∧ ∀ l', l' ∈ tasks (step (Remove i) s) → ¬ has_id (heap s) i l').
Proof.
  intros Hs Hl.
  assert (∀ i, heap (step (Remove i) s) = heap s
            ∧ ∀ l', l' ∈ tasks (step (Remove i) s) → ¬ has_id (heap s) i l')
    as Hremove.
  { intros i. split; [done|]. by intros l' [_ Hl']%removeTask_elem_of. }
  revert s t Hs Hl Hremove.
  induction os as [|o os IH]; intros s t Hs Hl Hremove.
  - exists t. simpl. split_and!; auto.
    eapply Forall_lookup_1 in Hl; [exact Hl|by apply reachable_statuses_ok].
  - assert (Task.status t = pendente ∨ Task.status t = concluida) as Hst.
    { eapply Forall_lookup_1 in Hl; [exact Hl|by apply reachable_statuses_ok]. }
    destruct (step_object o s l t Hl) as (t1 & Hl1 & Hid1 & _ & _ & _ & Hst1).
    destruct (IH (step o s) t1) as (t' & Hl' & Hid' & _ & Hst' & Hdone' & _).
    { by constructor. }
    { done. }
    { intros i. split; [done|]. by intros l' [_ Hl2]%removeTask_elem_of. }
    exists t'. simpl. split_and!; [done|congruence|done| | |done].
    + destruct Hst' as [Heq|(Hp1 & Hc' & Hin)].
      * destruct Hst1 as [Heq1|[Hc1 ->]]; [left; congruence|].
        destruct Hst as [Hp|Hc]; [|left; congruence].
        right. split_and!; [done|congruence|]. apply list_elem_of_here.
      * destruct Hst1 as [Heq1|[Hc1 _]].
        -- right. split_and!; [congruence|done|].
           apply list_elem_of_further. by rewrite <- Hid1.
        -- exfalso. apply pendente_ne_concluida. congruence.
    + intros Hc. apply Hdone'. destruct Hst1 as [Heq1|[Hc1 _]]; congruence.
Qed.

Lemma status_moves_only_from_pendente_to_concluida_witness :
  reachable one_task
  ∧ heap one_task !! 0%nat = Some (Task.new now0 "Buy milk" "2% fat" (TimeValue 1704844800000))
  ∧ ∃ t', heap (run [MarkDone now0; Remove now0; MarkDone now0] one_task) !! 0%nat = Some t'
      ∧ Task.id t' = now0
      ∧ Task.status t' = concluida.
Proof.
  assert (reachable one_task) as Hr by apply reachable_run, reachable_initial.
  assert (heap one_task !! 0%nat
          = Some (Task.new now0 "Buy milk" "2% fat" (TimeValue 1704844800000)))
    as Hl by reflexivity.
  split; [exact Hr|]. split; [exact Hl|].
  destruct (status_moves_only_from_pendente_to_concluida one_task
              [MarkDone now0; Remove now0; MarkDone now0] 0%nat _ Hr Hl)
    as (t' & Hl' & Hid & _ & _ & _ & _).
  exists t'. split; [exact Hl'|]. split; [exact Hid|].
  vm_compute in Hl'. injection Hl' as <-. reflexivity.
Defined.

End status_over_time.

(** ** The order of the listing *)

Section listing_order.
Implicit Types (l : loc) (i : Z) (s : State) (o : op).

(** C4. [listarTarefas] returns the whole array of the repository, and in a
    reachable state the array is in creation order (references are allocated in
    increasing order, so a sorted array lists the tasks in the order of their
    insertion).  No call reorders it: [createTask] appends the new reference,
    [taskDone] leaves the array as it is, and [removeTask] keeps the remaining
    references in the order they had. *)
Theorem listarTarefas_in_insertion_order s :
  reachable s →
  TaskService.listarTarefas s = tasks s
  ∧ StronglySorted lt (TaskService.listarTarefas s)
  ∧ (∀ now ti de du,
       TaskService.listarTarefas (step (Create now ti de du) s)
       = TaskService.listarTarefas s ++ [fst (TaskService.createTask now ti de du s)]
       ∧ ∀ l, l ∈ TaskService.listarTarefas s →
              (l < fst (TaskService.createTask now ti de du s))%nat)
  ∧ (∀ i, TaskService.listarTarefas (step (MarkDone i) s)
          = TaskService.listarTarefas s)
  ∧ (∀ i, TaskService.listarTarefas (step (Remove i) s)
          = filter (λ l, ¬ has_id (heap s) i l) (TaskService.listarTarefas s)
          ∧ TaskService.listarTarefas (step (Remove i) s)
              `sublist_of` TaskService.listarTarefas s)
  ∧ TaskService.listarTarefas (step ListAll s) = TaskService.listarTarefas s
  ∧ ∀ o, StronglySorted lt (TaskService.listarTarefas (step o s)).
Proof.
  intros Hs. unfold TaskService.listarTarefas, TaskRepository.listarTarefas.
  split_and!.
  - done.
  - by apply reachable_in_creation_order.
  - intros now ti de du. split; [done|]. simpl. intros l Hl.
    apply reachable_wf in Hs. by eapply Forall_forall in Hs.
  - intros i. apply taskDone_tasks.
  - intros i. split; [done|]. apply sublist_filter.
  - done.
  - intros o. apply (reachable_in_creation_order (step o s)). by constructor.
Qed.

Lemma listarTarefas_in_insertion_order_witness :
  reachable two_tasks
  ∧ TaskService.listarTarefas two_tasks = [0; 1]%nat
  ∧ TaskService.listarTarefas (step (pay_rent (now0 + 2)) two_tasks) = [0; 1; 2]%nat
  ∧ TaskService.listarTarefas (step (MarkDone now0) two_tasks) = [0; 1]%nat
  ∧ TaskService.listarTarefas (step (Remove now0) two_tasks) = [1]%nat.
Proof.
  assert (reachable two_tasks) as Hr by apply reachable_run, reachable_initial.
  destruct (listarTarefas_in_insertion_order two_tasks Hr)
    as (Hall & _ & Hcreate & Hdone & Hremove & _).
  split; [exact Hr|]. split_and!.
  - rewrite Hall. reflexivity.
  - unfold pay_rent. rewrite (proj1 (Hcreate _ _ _ _)), Hall. reflexivity.
  - rewrite Hdone, Hall. reflexivity.
  - rewrite (proj1 (Hremove _)), Hall. vm_compute. reflexivity.
Defined.

End listing_order.

(** ** Removing and completing by id *)

Section by_id.
Implicit Types (l : loc) (i : Z) (s : State).

(** C5. [removeTask] keeps exactly the references whose task has another id,
    in their order, and touches no object.  Afterwards the listing holds no
    task with the id, [buscarTarefaPorId] finds none, and a second [removeTask]
    with the same id returns the state as it is.  The function is total: there
    is no error to raise. *)
Theorem removeTask_removes_every_match s i :
  heap (TaskService.removeTask i s) = heap s
  ∧ (∀ l, l ∈ TaskService.listarTarefas (TaskService.removeTask i s)
          ↔ l ∈ TaskService.listarTarefas s ∧ ¬ has_id (heap s) i l)
  ∧ TaskService.listarTarefas (TaskService.removeTask i s)
      `sublist_of` TaskService.listarTarefas s
  ∧ (i ∉ ids (TaskService.removeTask i s))
  ∧ TaskRepository.buscarTarefaPorId i (TaskService.removeTask i s) = None
  ∧ TaskService.removeTask i (TaskService.removeTask i s)
    = TaskService.removeTask i s.
Proof.
  assert (i ∉ ids (TaskService.removeTask i s)) as Hgone.
  { rewrite elem_of_ids. by intros (l & [_ Hl]%removeTask_elem_of & Hid). }
  split_and!.
  - done.
  - intros l. apply removeTask_elem_of.
  - apply sublist_filter.
  - done.
  - by apply buscarTarefaPorId_absent.
  - apply removeTask_absent. apply buscarTarefaPorId_None.
    by apply buscarTarefaPorId_absent.
Qed.

(** C6. When a task with the id is in the store, [taskDone] overwrites the
    status of the task that [buscarTarefaPorId] finds with ["concluída"]; when
    there is none, [taskDone] returns the state as it is.  No case raises an
    error: the function is total. *)
Theorem taskDone_sets_status_of_found_task s i :
  (i ∈ ids s →
   ∃ l t, TaskRepository.buscarTarefaPorId i s = Some l
     ∧ heap s !! l = Some t
     ∧ Task.id t = i
     ∧ heap (TaskService.taskDone i s) !! l = Some (Task.alterarStatus concluida t)
     ∧ status_at (heap (TaskService.taskDone i s)) l = Some concluida)
  ∧ (i ∉ ids s → TaskService.taskDone i s = s).
Proof.
  split.
  - intros [l Hfind]%buscarTarefaPorId_present.
    destruct (buscarTarefaPorId_found _ _ _ Hfind) as (_ & t & Ht & Hid).
    exists l, t. split_and!; [done..| |].
    + rewrite taskDone_lookup, decide_True, Ht by done. done.
    + unfold status_at. rewrite taskDone_lookup, decide_True, Ht by done. done.
  - apply taskDone_absent.
Qed.

Lemma taskDone_sets_status_of_found_task_witness :
  (now0 ∈ ids two_tasks
   ∧ status_at (heap (TaskService.taskDone now0 two_tasks)) 0%nat = Some concluida)
  ∧ ((7 ∉ ids two_tasks) ∧ TaskService.taskDone 7 two_tasks = two_tasks).
Proof.
  assert (now0 ∈ ids two_tasks) as Hin
    by (apply (bool_decide_unpack _); vm_compute; exact I).
  assert (7 ∉ ids two_tasks) as Hout
    by (apply (bool_decide_unpack _); vm_compute; exact I).
  destruct (taskDone_sets_status_of_found_task two_tasks now0) as [Hfound _].
  destruct (taskDone_sets_status_of_found_task two_tasks 7) as [_ Hmissing].
  split; (split; [done|]).
  - destruct (Hfound Hin) as (l & t & Hfind & _ & _ & _ & Hst).
    vm_compute in Hfind. injection Hfind as <-. exact Hst.
  - exact (Hmissing Hout).
Defined.

(** C7. For an id that no stored task has, [taskDone] and [removeTask] both
    return the state they were given: the same array and the same objects,
    field by field.  Neither can raise an error. *)
Theorem absent_id_leaves_store_unchanged s i :
  i ∉ ids s →
  TaskService.taskDone i s = s ∧ TaskService.removeTask i s = s.
Proof.
  intros Habs. split.
  - by apply taskDone_absent.
  - apply removeTask_absent. apply buscarTarefaPorId_None.
    by apply buscarTarefaPorId_absent.
Qed.

Lemma absent_id_leaves_store_unchanged_witness :
  (7 ∉ ids two_tasks)
  ∧ TaskService.taskDone 7 two_tasks = two_tasks
  ∧ TaskService.removeTask 7 two_tasks = two_tasks.
Proof.
  assert (7 ∉ ids two_tasks) as Hout
    by (apply (bool_decide_unpack _); vm_compute; exact I).
  split; [exact Hout|].
  exact (absent_id_leaves_store_unchanged two_tasks 7 Hout).
Defined.

(** After [taskDone], [buscarTarefaPorId] finds what it found before: the
    array and the ids are the same. *)
Lemma buscarTarefaPorId_taskDone i j s :
  TaskRepository.buscarTarefaPorId j (TaskService.taskDone i s)
  = TaskRepository.buscarTarefaPorId j s.
Proof.
  apply buscarTarefaPorId_ext; [apply taskDone_tasks|].
  intros l. apply taskDone_id_at.
Qed.

Lemma taskDone_twice i s :
  TaskService.taskDone i (TaskService.taskDone i s) = TaskService.taskDone i s.
Proof.
  unfold TaskService.taskDone at 1. rewrite buscarTarefaPorId_taskDone.
  unfold TaskService.taskDone.
  destruct (TaskRepository.buscarTarefaPorId i s) as [l|] eqn:Hfind; [|done].
  simpl. f_equal. rewrite list_alter_alter_eq.
  apply list_alter_ext; [|done]. intros t _. apply alterarStatus_twice.
Qed.

(** C8. When a task with the id is in the store, the task that
    [buscarTarefaPorId] finds has status ["concluída"] after [taskDone]; a
    second [taskDone] with the same id finds the same task and returns the
    state as it is, so the status is still ["concluída"]. *)
Theorem taskDone_idempotent s i :
  i ∈ ids s →
  ∃ l, TaskRepository.buscarTarefaPorId i s = Some l
    ∧ status_at (heap (TaskService.taskDone i s)) l = Some concluida
    ∧ TaskRepository.buscarTarefaPorId i (TaskService.taskDone i s) = Some l
    ∧ TaskService.taskDone i (TaskService.taskDone i s) = TaskService.taskDone i s
    ∧ status_at (heap (TaskService.taskDone i (TaskService.taskDone i s))) l
      = Some concluida.
Proof.
  intros [l Hfind]%buscarTarefaPorId_present.
  destruct (buscarTarefaPorId_found _ _ _ Hfind) as (_ & t & Ht & Hid).
  assert (status_at (heap (TaskService.taskDone i s)) l = Some concluida) as Hst.
  { unfold status_at. rewrite taskDone_lookup, decide_True, Ht by done. done. }
  exists l. split_and!; [done|done| |apply taskDone_twice|].
  - by rewrite buscarTarefaPorId_taskDone.
  - by rewrite taskDone_twice.
Qed.

Lemma taskDone_idempotent_witness :
  now0 ∈ ids same_ms
  ∧ ∃ l, TaskRepository.buscarTarefaPorId now0 same_ms = Some l
    ∧ TaskService.taskDone now0 (TaskService.taskDone now0 same_ms)
      = TaskService.taskDone now0 same_ms.
Proof.
  assert (now0 ∈ ids same_ms) as Hin
    by (apply (bool_decide_unpack _); vm_compute; exact I).
  split; [exact Hin|].
  destruct (taskDone_idempotent same_ms now0 Hin) as (l & Hfind & _ & _ & Hsame & _).
  exists l. split; [exact Hfind|exact Hsame].
Defined.

(** C9. When a task with the id is in the store, [taskDone] writes one field of
    one object: the status of the first task of the array that has the id.  The
    id, title, description and due date of that object, every other object, the
    number of objects and the array (its length and its order) are as
    before. *)
Theorem taskDone_changes_only_one_status s i :
  i ∈ ids s →
  ∃ k l t,
    tasks s !! k = Some l
    ∧ (∀ j l', tasks s !! j = Some l' → (j < k)%nat → ¬ has_id (heap s) i l')
    ∧ heap s !! l = Some t
    ∧ Task.id t = i
    ∧ heap (TaskService.taskDone i s) !! l
      = Some (Task.mk (Task.id t) (Task.title t) (Task.description t)
                (Task.dueDate t) concluida)
    ∧ (∀ l', l' ≠ l → heap (TaskService.taskDone i s) !! l' = heap s !! l')
    ∧ length (heap (TaskService.taskDone i s)) = length (heap s)
    ∧ TaskService.listarTarefas (TaskService.taskDone i s)
      = TaskService.listarTarefas s.
Proof.
  intros [l Hfind]%buscarTarefaPorId_present.
  destruct (proj1 (buscarTarefaPorId_Some _ _ _) Hfind) as (k & Hk & Hid & Hfirst).
  apply has_id_lookup in Hid as (t & Ht & Hid).
  exists k, l, t. split_and!; [done..| | | |].
  - rewrite taskDone_lookup, decide_True, Ht by done. done.
  - intros l' Hne. rewrite taskDone_lookup, decide_False; [done|congruence].
  - apply taskDone_length.
  - apply taskDone_tasks.
Qed.

Lemma taskDone_changes_only_one_status_witness :
  now0 ∈ ids same_ms
  ∧ heap (TaskService.taskDone now0 same_ms) !! 0%nat
    = Some (Task.mk now0 "Buy milk" "2% fat" (TimeValue 1704844800000) concluida)
  ∧ heap (TaskService.taskDone now0 same_ms) !! 1%nat = heap same_ms !! 1%nat
  ∧ TaskService.listarTarefas (TaskService.taskDone now0 same_ms)
    = TaskService.listarTarefas same_ms.
Proof.
  assert (now0 ∈ ids same_ms) as Hin
    by (apply (bool_decide_unpack _); vm_compute; exact I).
  split; [exact Hin|].
  destruct (taskDone_changes_only_one_status same_ms now0 Hin)
    as (k & l & t & Hk & _ & Ht & _ & Hl & Hothers & _ & Htasks).
  assert (l = 0%nat) as ->.
  { destruct k as [|[|k]]; vm_compute in Hk; [congruence| |discriminate].
    injection Hk as <-. vm_compute in Ht. discriminate. }
  vm_compute in Ht. injection Ht as <-.
  split; [exact Hl|]. split; [|exact Htasks].
  apply Hothers. discriminate.
Defined.

End by_id.

(** ** Creation and the identity of tasks *)

Section creation.
Implicit Types (l : loc) (i : Z) (s : State).

(** Among the references of a well-formed state, the new object changes no
    id. *)
Lemma has_id_createTask now ti de du s i l :
  (l < length (heap s))%nat →
  has_id (heap (snd (TaskService.createTask now ti de du s))) i l
  ↔ has_id (heap s) i l.
Proof. intros Hl. unfold has_id. simpl. by rewrite id_at_alloc. Qed.

Lemma ids_createTask now ti de du s :
  wf s → ids (snd (TaskService.createTask now ti de du s)) = ids s ++ [now].
Proof.
  intros Hwf. unfold ids. simpl. rewrite omap_app. f_equal.
  - apply list_omap_ext. apply Forall2_same_length_lookup_2; [done|].
    intros k l l' Hl Hl'. assert (l' = l) as -> by congruence.
    apply id_at_alloc. by eapply Forall_lookup_1 in Hwf.
  - simpl. by rewrite id_at_alloc_new.
Qed.

(** What [createTask] returns and stores, for any well-formed state: a new
    object with the given fields and status ["pendente"], whose reference is in
    the array once, at the end. *)
Lemma createTask_stores_new_task now ti de du s :
  wf s →
  let task := fst (TaskService.createTask now ti de du s) in
  let s' := snd (TaskService.createTask now ti de du s) in
  heap s' !! task = Some (Task.mk now ti de du pendente)
  ∧ TaskService.listarTarefas s' = TaskService.listarTarefas s ++ [task]
  ∧ (task ∉ TaskService.listarTarefas s)
  ∧ ∀ l t, heap s !! l = Some t → heap s' !! l = Some t.
Proof.
  intros Hwf. simpl. split_and!.
  - by rewrite list_lookup_middle.
  - done.
  - intros Hin. eapply Forall_forall in Hwf; [|exact Hin]. simpl in Hwf. lia.
  - intros l t Hl. by apply lookup_app_l_Some.
Qed.

(** [buscarTarefaPorId] after [createTask], when the timestamp is the id of no
    stored task: the new task is found. *)
Lemma buscarTarefaPorId_createTask_fresh now ti de du s :
  wf s → now ∉ ids s →
  TaskRepository.buscarTarefaPorId now (snd (TaskService.createTask now ti de du s))
  = Some (fst (TaskService.createTask now ti de du s)).
Proof.
  intros Hwf Hfresh. apply buscarTarefaPorId_Some.
  exists (length (tasks s)). split_and!.
  - simpl. by rewrite list_lookup_middle.
  - unfold has_id. simpl. by rewrite id_at_alloc_new.
  - intros j l' Hj Hlt Hid. rewrite createTask_tasks in Hj.
    rewrite lookup_app_l in Hj by done.
    assert (l' ∈ tasks s) as Hin by by eapply list_elem_of_lookup_2.
    apply Hfresh, elem_of_ids. exists l'. split; [done|].
    eapply has_id_createTask; [|exact Hid].
    by eapply Forall_forall in Hwf.
Qed.

(** [buscarTarefaPorId] after [createTask], when a stored task already has the
    timestamp as its id: the older task is found, as before the call. *)
Lemma buscarTarefaPorId_createTask_old now ti de du s i l :
  wf s →
  TaskRepository.buscarTarefaPorId i s = Some l →
  TaskRepository.buscarTarefaPorId i (snd (TaskService.createTask now ti de du s))
  = Some l.
Proof.
  intros Hwf (k & Hk & Hid & Hfirst)%buscarTarefaPorId_Some.
  apply buscarTarefaPorId_Some. exists k. split_and!.
  - rewrite createTask_tasks. by apply lookup_app_l_Some.
  - apply has_id_createTask; [|done]. by eapply has_id_allocated.
  - intros j l' Hj Hlt Hid'. rewrite createTask_tasks in Hj.
    assert (k < length (tasks s))%nat by by eapply lookup_lt_Some.
    rewrite lookup_app_l in Hj by lia.
    apply (Hfirst j l' Hj Hlt). eapply has_id_createTask; [|exact Hid'].
    eapply Forall_lookup_1 in Hwf; [exact Hwf|exact Hj].
Qed.

(** [createTask] checks nothing: with a timestamp that is new to the store the
    ids stay pairwise distinct, with one that a stored task has they do not. *)
Lemma createTask_NoDup_ids now ti de du s :
  wf s → NoDup (ids s) →
  NoDup (ids (snd (TaskService.createTask now ti de du s))) ↔ now ∉ ids s.
Proof.
  intros Hwf Hnd. rewrite ids_createTask by done. rewrite NoDup_app. split.
  - intros (_ & Hdisj & _) Hin. apply (Hdisj now Hin). apply list_elem_of_here.
  - intros Hfresh. split_and!; [done| |apply NoDup_singleton].
    intros x Hx ->%list_elem_of_singleton. by apply Hfresh.
Qed.

(** C1, at two calls of [createTask] that read the same value of
    [Date.now()]: the two returned tasks are different objects, both are in the
    store, and both have the timestamp as their id, so the ids of the store are
    not pairwise distinct. *)
Theorem createTask_same_millisecond_repeats_id :
  let r1 := TaskService.createTask now0 "Buy milk" "2% fat"
              (TimeValue 1704844800000) initial in
  let r2 := TaskService.createTask now0 "Pay rent" ""
              (TimeValue 1704412800000) (snd r1) in
  fst r1 ≠ fst r2
  ∧ TaskService.listarTarefas (snd r2) = [fst r1; fst r2]
  ∧ id_at (heap (snd r2)) (fst r1) = Some now0
  ∧ id_at (heap (snd r2)) (fst r2) = Some now0
  ∧ ids (snd r2) = [now0; now0]
  ∧ ¬ NoDup (ids (snd r2)).
Proof.
  simpl. split_and!; [discriminate|reflexivity..|].
  vm_compute. intros Hnd. apply NoDup_cons in Hnd as [Hnotin _].
  apply Hnotin, list_elem_of_here.
Qed.

(** C3, at a call of [createTask] that reads a value of [Date.now()] which is
    the id of a stored task: the returned task has status ["pendente"] and is
    appended to the listing, where it was not before, but [buscarTarefaPorId]
    on its id returns the older task, not the returned one. *)
Theorem createTask_same_millisecond_not_found :
  let r := TaskService.createTask now0 "Pay rent" ""
             (TimeValue 1704412800000) one_task in
  status_at (heap (snd r)) (fst r) = Some pendente
  ∧ TaskService.listarTarefas (snd r) = TaskService.listarTarefas one_task ++ [fst r]
  ∧ (fst r ∉ TaskService.listarTarefas one_task)
  ∧ id_at (heap (snd r)) (fst r) = Some now0
  ∧ TaskRepository.buscarTarefaPorId now0 (snd r) = Some 0%nat
  ∧ TaskRepository.buscarTarefaPorId now0 (snd r) ≠ Some (fst r).
Proof.
  simpl. split_and!; [reflexivity|reflexivity| |reflexivity|reflexivity|discriminate].
  vm_compute. intros Hin. apply list_elem_of_singleton in Hin. discriminate.
Qed.

(** The scenario of the specification, with the two tasks created one
    millisecond apart: the ids differ, the listing is in creation order,
    [taskDone] on the first id completes the first task, and [removeTask] on the
    second id leaves the first task alone in the listing. *)
Example scenario_distinct_timestamps :
  ids two_tasks = [now0; now0 + 1]
  ∧ TaskService.listarTarefas two_tasks = [0; 1]%nat
  ∧ status_at (heap (TaskService.taskDone now0 two_tasks)) 0 = Some concluida
  ∧ TaskService.listarTarefas
      (TaskService.removeTask (now0 + 1) (TaskService.taskDone now0 two_tasks))
    = [0%nat].
Proof. by vm_compute. Qed.

End creation.

(** ** Two tasks with one id *)

Section duplicate_ids.
Implicit Types (l a b : loc) (i : Z) (s : State).

(** [createTask] inserts without looking at the ids already stored: called with
    a timestamp that a stored task has as its id, it leaves the store with two
    different tasks of that id. *)
Lemma createTask_no_duplicate_check now ti de du s :
  wf s → now ∈ ids s →
  ∃ a, a ∈ tasks (snd (TaskService.createTask now ti de du s))
    ∧ fst (TaskService.createTask now ti de du s)
        ∈ tasks (snd (TaskService.createTask now ti de du s))
    ∧ (a < fst (TaskService.createTask now ti de du s))%nat
    ∧ has_id (heap (snd (TaskService.createTask now ti de du s))) now a
    ∧ has_id (heap (snd (TaskService.createTask now ti de du s))) now
        (fst (TaskService.createTask now ti de du s)).
Proof.
  intros Hwf (a & Ha & Hid)%elem_of_ids.
  assert (a < length (heap s))%nat as Hlt by by eapply has_id_allocated.
  exists a. rewrite createTask_tasks. split_and!.
  - apply elem_of_app. by left.
  - apply elem_of_app. right. apply list_elem_of_here.
  - done.
  - by apply has_id_createTask.
  - unfold has_id. simpl. by rewrite id_at_alloc_new.
Qed.

(** C10. In a reachable state that holds two tasks with the same id, [a]
    created before [b], where [a] is the first created of the stored tasks with
    that id: [buscarTarefaPorId] returns [a]; [taskDone] sets the status of [a]
    and leaves [b], like every object other than [a], as it is; [removeTask]
    drops [a], [b] and every other task with the id in one call. *)
Theorem duplicate_id_first_inserted_found_all_removed s i a b :
  reachable s →
  a ∈ tasks s → b ∈ tasks s →
  has_id (heap s) i a → has_id (heap s) i b →
  (a < b)%nat →
  (∀ l, l ∈ tasks s → has_id (heap s) i l → (a ≤ l)%nat) →
  TaskRepository.buscarTarefaPorId i s = Some a
  ∧ status_at (heap (TaskService.taskDone i s)) a = Some concluida
  ∧ heap (TaskService.taskDone i s) !! b = heap s !! b
  ∧ (∀ l, l ≠ a → heap (TaskService.taskDone i s) !! l = heap s !! l)
  ∧ (a ∉ TaskService.listarTarefas (TaskService.removeTask i s))
  ∧ (b ∉ TaskService.listarTarefas (TaskService.removeTask i s))
  ∧ (i ∉ ids (TaskService.removeTask i s)).
Proof.
  intros Hs Ha Hb Hida Hidb Hab Hfirst.
  assert (TaskRepository.buscarTarefaPorId i s = Some a) as Hfind.
  { apply buscarTarefaPorId_Some.
    apply list_elem_of_lookup_1 in Ha as [k Hk]. exists k. split_and!; [done..|].
    intros j l' Hj Hjk Hid'.
    assert (l' < a)%nat as Hlt.
    { eapply in_creation_order_lookup; [by apply reachable_in_creation_order|..];
        done. }
    assert (a ≤ l')%nat; [|lia].
    apply Hfirst; [|done]. by eapply list_elem_of_lookup_2. }
  destruct (proj1 (has_id_lookup _ _ _) Hida) as (t & Ht & _).
  assert (∀ l, l ≠ a → heap (TaskService.taskDone i s) !! l = heap s !! l)
    as Hothers.
  { intros l Hne. rewrite taskDone_lookup, decide_False; [done|congruence]. }
  split_and!.
  - done.
  - unfold status_at. rewrite taskDone_lookup, decide_True, Ht by done. done.
  - apply Hothers. lia.
  - done.
  - by intros [_ Hno]%removeTask_elem_of.
  - by intros [_ Hno]%removeTask_elem_of.
  - rewrite elem_of_ids. by intros (l & [_ Hl]%removeTask_elem_of & Hid).
Qed.

Lemma duplicate_id_first_inserted_found_all_removed_witness :
  reachable same_ms
  ∧ 0%nat ∈ tasks same_ms ∧ 1%nat ∈ tasks same_ms
  ∧ has_id (heap same_ms) now0 0 ∧ has_id (heap same_ms) now0 1
  ∧ TaskRepository.buscarTarefaPorId now0 same_ms = Some 0%nat
  ∧ status_at (heap (TaskService.taskDone now0 same_ms)) 0 = Some concluida
  ∧ heap (TaskService.taskDone now0 same_ms) !! 1%nat = heap same_ms !! 1%nat
  ∧ TaskService.listarTarefas (TaskService.removeTask now0 same_ms) = [].
Proof.
  assert (reachable same_ms) as Hr by apply reachable_run, reachable_initial.
  assert (0%nat ∈ tasks same_ms) as H0
    by (apply (bool_decide_unpack _); vm_compute; exact I).
  assert (1%nat ∈ tasks same_ms) as H1
    by (apply (bool_decide_unpack _); vm_compute; exact I).
  assert (has_id (heap same_ms) now0 0) as Hid0 by reflexivity.
  assert (has_id (heap same_ms) now0 1) as Hid1 by reflexivity.
  destruct (duplicate_id_first_inserted_found_all_removed same_ms now0 0 1
              Hr H0 H1 Hid0 Hid1 (le_n 1) (λ l _ _, Nat.le_0_l l))
    as (Hfind & Hst & Hb & _ & _ & _ & _).
  split_and!; try done.
Defined.

End duplicate_ids.

(** ** How the calls of the service compose *)

Section composition.
Implicit Types (l : loc) (i j : Z) (s : State).

(** [find] over a filtered array, when the filter keeps everything that [find]
    looks for. *)
Lemma list_find_filter_keep {A} (P Q : A → Prop)
    `{!∀ x, Decision (P x), !∀ x, Decision (Q x)} (xs : list A) :
  (∀ x, P x → Q x) →
  snd <$> list_find P (filter Q xs) = snd <$> list_find P xs.
Proof.
  intros HPQ.
  assert (∀ o : option (nat * A), snd <$> (prod_map S id <$> o) = snd <$> o)
    as Hshift by (by intros [[]|]).
  induction xs as [|x xs IH]; [done|].
  rewrite filter_cons. destruct (decide (Q x)) as [HQ|HQ].
  - simpl. destruct (decide (P x)); [done|]. by rewrite !Hshift.
  - simpl. rewrite decide_False by (intros HP; by apply HQ, HPQ).
    by rewrite Hshift.
Qed.

(** Two callbacks that agree on the elements of an array filter it alike. *)
Lemma filter_ext_elem {A} (P Q : A → Prop)
    `{!∀ x, Decision (P x), !∀ x, Decision (Q x)} (xs : list A) :
  (∀ x, x ∈ xs → P x ↔ Q x) → filter P xs = filter Q xs.
Proof.
  induction xs as [|x xs IH]; intros HPQ; [done|].
  rewrite !filter_cons.
  rewrite (decide_ext (P x) (Q x)) by (apply HPQ, list_elem_of_here).
  rewrite IH; [done|]. intros y Hy. by apply HPQ, list_elem_of_further.
Qed.

Lemma omap_filter_Some {A B} `{EqDecision B} (f : A → option B) (y : B)
    (xs : list A) :
  omap f (filter (λ x, ¬ f x = Some y) xs) = filter (λ z, z ≠ y) (omap f xs).
Proof.
  induction xs as [|x xs IH]; [done|].
  rewrite filter_cons. csimpl. destruct (f x) as [z|] eqn:Hfx.
  - rewrite filter_cons. destruct (decide (z = y)) as [->|Hne].
    + rewrite decide_False by (by intros []). rewrite decide_False by (by intros []).
      done.
    + rewrite decide_True by congruence. rewrite decide_True by done.
      csimpl. rewrite Hfx. by f_equal.
  - rewrite decide_True by done. csimpl. by rewrite Hfx.
Qed.

Lemma ids_taskDone i s : ids (TaskService.taskDone i s) = ids s.
Proof.
  unfold ids. rewrite taskDone_tasks. apply list_omap_ext.
  apply Forall2_same_length_lookup_2; [done|].
  intros k l l' Hl Hl'. assert (l' = l) as -> by congruence.
  apply taskDone_id_at.
Qed.

(** X1. The ids of the store after [removeTask]: the ids it had, without the
    removed id, in the same order and as often as before. *)
Theorem ids_removeTask s i :
  ids (TaskService.removeTask i s) = filter (λ j, j ≠ i) (ids s).
Proof. unfold ids. simpl. apply omap_filter_Some. Qed.

(** X2. Removing the tasks of one id changes nothing for another id:
    [buscarTarefaPorId] returns for it what it returned before. *)
Theorem buscarTarefaPorId_removeTask_other s i j :
  j ≠ i →
  TaskRepository.buscarTarefaPorId j (TaskService.removeTask i s)
  = TaskRepository.buscarTarefaPorId j s.
Proof.
  intros Hne. unfold TaskRepository.buscarTarefaPorId. simpl.
  apply list_find_filter_keep. unfold has_id. intros l Hj Hi. congruence.
Qed.

Lemma buscarTarefaPorId_removeTask_other_witness :
  now0 + 1 ≠ now0
  ∧ TaskRepository.buscarTarefaPorId (now0 + 1) (TaskService.removeTask now0 two_tasks)
    = Some 1%nat.
Proof.
  assert (now0 + 1 ≠ now0) as Hne by discriminate.
  split; [exact Hne|].
  rewrite (buscarTarefaPorId_removeTask_other two_tasks now0 (now0 + 1) Hne).
  reflexivity.
Defined.

(** X3. Two [removeTask] calls give the same state in either order. *)
Theorem removeTask_removeTask_comm s i j :
  TaskService.removeTask i (TaskService.removeTask j s)
  = TaskService.removeTask j (TaskService.removeTask i s).
Proof.
  unfold TaskService.removeTask, TaskRepository.removeTask. simpl. f_equal.
  rewrite !list_filter_filter. apply list_filter_iff. tauto.
Qed.

(** X4. Two [taskDone] calls give the same state in either order. *)
Theorem taskDone_taskDone_comm s i j :
  TaskService.taskDone i (TaskService.taskDone j s)
  = TaskService.taskDone j (TaskService.taskDone i s).
Proof.
  unfold TaskService.taskDone at 1 3. rewrite !buscarTarefaPorId_taskDone.
  unfold TaskService.taskDone.
  destruct (TaskRepository.buscarTarefaPorId i s) as [l|],
    (TaskRepository.buscarTarefaPorId j s) as [l'|]; simpl; try done.
  f_equal. rewrite list_alter_alter. case_decide as Heq; [|done].
  subst l'. by rewrite list_alter_alter_eq.
Qed.

(** X5. [taskDone] on one id and [removeTask] on another give the same state
    in either order. *)
Theorem taskDone_removeTask_comm s i j :
  i ≠ j →
  TaskService.taskDone i (TaskService.removeTask j s)
  = TaskService.removeTask j (TaskService.taskDone i s).
Proof.
  intros Hne.
  assert (TaskRepository.buscarTarefaPorId i (TaskService.removeTask j s)
          = TaskRepository.buscarTarefaPorId i s) as Hfind.
  { unfold TaskRepository.buscarTarefaPorId. simpl.
    apply list_find_filter_keep. unfold has_id. intros l Hi Hj. congruence. }
  unfold TaskService.taskDone at 1. rewrite Hfind.
  unfold TaskService.taskDone.
  destruct (TaskRepository.buscarTarefaPorId i s) as [l|]; [|done].
  unfold TaskService.removeTask, TaskRepository.removeTask. simpl. f_equal.
  apply list_filter_iff. intros l'. by rewrite has_id_alterarStatus.
Qed.

Lemma taskDone_removeTask_comm_witness :
  now0 ≠ now0 + 1
  ∧ TaskService.taskDone now0 (TaskService.removeTask (now0 + 1) two_tasks)
    = TaskService.removeTask (now0 + 1) (TaskService.taskDone now0 two_tasks).
Proof.
  assert (now0 ≠ now0 + 1) as Hne by discriminate.
  split; [exact Hne|].
  exact (taskDone_removeTask_comm two_tasks now0 (now0 + 1) Hne).
Defined.

End composition.

(** ** Identity: when the ids are pairwise distinct *)

Section identity.
Implicit Types (l : loc) (i j : Z) (s : State) (o : op).

(** X6. [removeTask] on the timestamp right after [createTask] lists what
    [removeTask] alone would list: the new task goes, and with it every older
    task that has the timestamp as its id.  When no stored task has it, the
    listing is the one from before the two calls. *)
Theorem createTask_then_removeTask s now ti de du :
  wf s →
  TaskService.listarTarefas
    (TaskService.removeTask now (snd (TaskService.createTask now ti de du s)))
  = TaskService.listarTarefas (TaskService.removeTask now s)
  ∧ ((now ∉ ids s) →
     TaskService.listarTarefas
       (TaskService.removeTask now (snd (TaskService.createTask now ti de du s)))
     = TaskService.listarTarefas s).
Proof.
  intros Hwf.
  assert (TaskService.listarTarefas
            (TaskService.removeTask now (snd (TaskService.createTask now ti de du s)))
          = TaskService.listarTarefas (TaskService.removeTask now s)) as Heq.
  { unfold TaskService.listarTarefas, TaskRepository.listarTarefas. simpl.
    rewrite filter_app, filter_cons_False, filter_nil, app_nil_r.
    - apply filter_ext_elem. intros l Hl.
      assert (l < length (heap s))%nat by by eapply Forall_forall in Hwf.
      unfold has_id. by rewrite id_at_alloc.
    - intros Hno. apply Hno. unfold has_id. by rewrite id_at_alloc_new. }
  split; [exact Heq|]. intros Hfresh. rewrite Heq.
  unfold TaskService.listarTarefas, TaskRepository.listarTarefas. simpl.
  apply filter_all, Forall_forall. intros l Hl Hid.
  apply Hfresh, elem_of_ids. by exists l.
Qed.

Lemma createTask_then_removeTask_witness :
  wf one_task
  ∧ TaskService.listarTarefas
      (TaskService.removeTask now0
         (snd (TaskService.createTask now0 "Pay rent" "" InvalidDate one_task)))
    = []
  ∧ TaskService.listarTarefas
      (TaskService.removeTask (now0 + 1)
         (snd (TaskService.createTask (now0 + 1) "Pay rent" "" InvalidDate one_task)))
    = [0%nat].
Proof.
  assert (wf one_task) as Hwf by (repeat constructor).
  split; [exact Hwf|]. split.
  - rewrite (proj1 (createTask_then_removeTask one_task now0 _ _ _ Hwf)).
    reflexivity.
  - rewrite (proj2 (createTask_then_removeTask one_task (now0 + 1) _ _ _ Hwf)).
    + reflexivity.
    + apply (bool_decide_unpack _). vm_compute. exact I.
Defined.

Lemma NoDup_ids_step o s :
  wf s → NoDup (ids s) → (∀ j, j ∈ timestamps [o] → j ∉ ids s) →
  NoDup (ids (step o s)).
Proof.
  intros Hwf Hnd Hfresh. destruct o as [now ti de du|i|i|]; simpl.
  - apply createTask_NoDup_ids; [done..|]. apply Hfresh. apply list_elem_of_here.
  - by rewrite ids_taskDone.
  - assert (ids (TaskService.removeTask i s) = filter (λ j, j ≠ i) (ids s)) as ->
      by apply omap_filter_Some.
    by apply NoDup_filter.
  - done.
Qed.

Lemma elem_of_ids_step o s j :
  wf s → j ∈ ids (step o s) → j ∈ ids s ∨ j ∈ timestamps [o].
Proof.
  intros Hwf. destruct o as [now ti de du|i|i|]; unfold step.
  - rewrite ids_createTask by done. rewrite elem_of_app. intros [?|?]; [by left|by right].
  - rewrite ids_taskDone. by left.
  - assert (ids (TaskService.removeTask i s) = filter (λ j, j ≠ i) (ids s)) as ->
      by apply omap_filter_Some.
    intros [_ ?]%list_elem_of_filter. by left.
  - by left.
Qed.

Lemma NoDup_ids_run os s :
  wf s → NoDup (ids s) → NoDup (timestamps os) →
  (∀ j, j ∈ timestamps os → j ∉ ids s) →
  NoDup (ids (run os s)).
Proof.
  revert s. induction os as [|o os IH]; intros s Hwf Hnd Hts Hfresh; [done|].
  assert (timestamps (o :: os) = timestamps [o] ++ timestamps os) as Hcons
    by apply (omap_app _ [o] os).
  rewrite Hcons in Hts, Hfresh.
  apply NoDup_app in Hts as (Ho & Hdisj & Hos).
  simpl. apply IH.
  - by apply wf_step.
  - apply NoDup_ids_step; [done..|]. intros j Hj. apply Hfresh, elem_of_app. by left.
  - done.
  - intros j Hj [Hin|Hin]%elem_of_ids_step; [|by eapply Hdisj|done].
    eapply Hfresh; [|exact Hin]. apply elem_of_app. by right.
Qed.

(** X7. Starting from a new repository, if [Date.now()] returns a different
    value to each [createTask] call of a sequence of calls, the ids of the
    stored tasks are pairwise distinct at the end. *)
Theorem distinct_timestamps_distinct_ids os :
  NoDup (timestamps os) → NoDup (ids (run os initial)).
Proof.
  intros Hts. apply NoDup_ids_run; [by apply Forall_nil|constructor|done|].
  intros j _ Hin. by apply elem_of_nil in Hin.
Qed.

Lemma distinct_timestamps_distinct_ids_witness :
  NoDup (timestamps [buy_milk now0; MarkDone now0; pay_rent (now0 + 1)])
  ∧ NoDup (ids (run [buy_milk now0; MarkDone now0; pay_rent (now0 + 1)] initial)).
Proof.
  assert (NoDup (timestamps [buy_milk now0; MarkDone now0; pay_rent (now0 + 1)]))
    as Hts by (apply (bool_decide_unpack _); vm_compute; exact I).
  split; [exact Hts|].
  exact (distinct_timestamps_distinct_ids _ Hts).
Defined.

(** X8. No call of the service edits or frees a task object: over any sequence
    of calls, an object that exists is still behind the same reference
    afterwards, removed from the repository or not, with the id, title,
    description and due date it had. *)
Theorem run_keeps_task_fields os s l t :
  heap s !! l = Some t →
  ∃ t', heap (run os s) !! l = Some t'
    ∧ Task.id t' = Task.id t
    ∧ Task.title t' = Task.title t
    ∧ Task.description t' = Task.description t
    ∧ Task.dueDate t' = Task.dueDate t.
Proof.
  revert s t. induction os as [|o os IH]; intros s t Hl.
  - exists t. by simpl.
  - destruct (step_object o s l t Hl) as (t1 & Hl1 & Hid & Hti & Hde & Hdu & _).
    destruct (IH (step o s) t1 Hl1) as (t' & Hl' & Hid' & Hti' & Hde' & Hdu').
    exists t'. simpl. split_and!; [done|congruence..].
Qed.

Lemma run_keeps_task_fields_witness :
  heap one_task !! 0%nat
  = Some (Task.new now0 "Buy milk" "2% fat" (TimeValue 1704844800000))
  ∧ ∃ t', heap (run [MarkDone now0; Remove now0; pay_rent now0] one_task) !! 0%nat
          = Some t'
      ∧ Task.title t' = "Buy milk".
Proof.
  assert (heap one_task !! 0%nat
          = Some (Task.new now0 "Buy milk" "2% fat" (TimeValue 1704844800000)))
    as Hl by reflexivity.
  split; [exact Hl|].
  destruct (run_keeps_task_fields [MarkDone now0; Remove now0; pay_rent now0]
              one_task 0%nat _ Hl) as (t' & Hl' & _ & Hti & _).
  exists t'. split; [exact Hl'|exact Hti].
Defined.

(** With pairwise distinct ids, no task next to one that has an id has that id
    too. *)
Lemma unique_ids_split s i l pre post :
  NoDup (ids s) → tasks s = pre ++ l :: post → has_id (heap s) i l →
  Forall (λ l', ¬ has_id (heap s) i l') pre
  ∧ Forall (λ l', ¬ has_id (heap s) i l') post.
Proof.
  unfold ids. intros Hnd Heq Hid. rewrite Heq, omap_app in Hnd. csimpl in Hnd.
  unfold has_id in Hid. rewrite Hid in Hnd.
  apply NoDup_app in Hnd as (_ & Hdisj & [Hpost _]%NoDup_cons).
  split; apply Forall_forall; intros l' Hl' Hid'.
  - apply (Hdisj i); [|apply list_elem_of_here].
    apply list_elem_of_omap. by exists l'.
  - apply Hpost. apply list_elem_of_omap. by exists l'.
Qed.

Lemma buscarTarefaPorId_unique s i l :
  NoDup (ids s) → l ∈ tasks s → has_id (heap s) i l →
  TaskRepository.buscarTarefaPorId i s = Some l.
Proof.
  intros Hnd (pre & post & Heq)%list_elem_of_split Hid.
  destruct (unique_ids_split s i l pre post Hnd Heq Hid) as [Hpre _].
  apply buscarTarefaPorId_Some. exists (length pre). split_and!.
  - rewrite Heq. by apply list_lookup_middle.
  - done.
  - intros k l' Hk Hlt. rewrite Heq, lookup_app_l in Hk by done.
    eapply Forall_lookup_1 in Hpre; [exact Hpre|exact Hk].
Qed.


(** X9. With pairwise distinct ids in the store, [buscarTarefaPorId] on the id
    of a stored task returns that very task, and [taskDone] on the id completes
    that task and changes no other object. *)
Theorem unique_ids_buscarTarefaPorId s i l :
  NoDup (ids s) → l ∈ tasks s → id_at (heap s) l = Some i →
  TaskRepository.buscarTarefaPorId i s = Some l
  ∧ status_at (heap (TaskService.taskDone i s)) l = Some concluida
  ∧ ∀ l', l' ≠ l → heap (TaskService.taskDone i s) !! l' = heap s !! l'.
Proof.
  intros Hnd Hl Hid.
  pose proof (buscarTarefaPorId_unique s i l Hnd Hl Hid) as Hfind.
  destruct (proj1 (has_id_lookup _ _ _) Hid) as (t & Ht & _).
  split_and!; [done| |].
  - unfold status_at. rewrite taskDone_lookup, decide_True, Ht by done. done.
  - intros l' Hne. rewrite taskDone_lookup, decide_False; [done|congruence].
Qed.

Lemma unique_ids_buscarTarefaPorId_witness :
  NoDup (ids two_tasks) ∧ 1%nat ∈ tasks two_tasks
  ∧ id_at (heap two_tasks) 1 = Some (now0 + 1)
  ∧ TaskRepository.buscarTarefaPorId (now0 + 1) two_tasks = Some 1%nat
  ∧ status_at (heap (TaskService.taskDone (now0 + 1) two_tasks)) 1 = Some concluida.
Proof.
  assert (NoDup (ids two_tasks)) as Hnd
    by (apply (bool_decide_unpack _); vm_compute; exact I).
  assert (1%nat ∈ tasks two_tasks) as Hin
    by (apply (bool_decide_unpack _); vm_compute; exact I).
  destruct (unique_ids_buscarTarefaPorId two_tasks (now0 + 1) 1 Hnd Hin eq_refl)
    as (Hfind & Hst & _).
  split_and!; [exact Hnd|exact Hin|reflexivity|exact Hfind|exact Hst].
Defined.

(** X10. With pairwise distinct ids in the store, [removeTask] on the id of
    the task at position [k] of the array removes the element at position [k]
    and nothing else. *)
Theorem unique_ids_removeTask s i k l :
  NoDup (ids s) → tasks s !! k = Some l → id_at (heap s) l = Some i →
  TaskService.listarTarefas (TaskService.removeTask i s)
  = delete k (TaskService.listarTarefas s).
Proof.
  intros Hnd Hk Hid.
  destruct (list_elem_of_split_length _ _ _ Hk) as (pre & post & Heq & ->).
  destruct (unique_ids_split s i l pre post Hnd Heq Hid) as [Hpre Hpost].
  unfold TaskService.listarTarefas, TaskRepository.listarTarefas. simpl.
  rewrite Heq, delete_middle, filter_app, filter_cons_False by (by intros []).
  by rewrite !filter_all.
Qed.

Lemma unique_ids_removeTask_witness :
  NoDup (ids two_tasks) ∧ tasks two_tasks !! 0%nat = Some 0%nat
  ∧ id_at (heap two_tasks) 0 = Some now0
  ∧ TaskService.listarTarefas (TaskService.removeTask now0 two_tasks) = [1%nat].
Proof.
  assert (NoDup (ids two_tasks)) as Hnd
    by (apply (bool_decide_unpack _); vm_compute; exact I).
  split_and!; [exact Hnd|reflexivity|reflexivity|].
  exact (unique_ids_removeTask two_tasks now0 0 0 Hnd eq_refl eq_refl).
Defined.

(** X11. In a state that the service can reach, the repository lists no task
    object twice, and every listed reference leads to an object. *)
Theorem reachable_lists_each_task_once s :
  reachable s →
  NoDup (TaskService.listarTarefas s)
  ∧ ∀ l, l ∈ TaskService.listarTarefas s → is_Some (heap s !! l).
Proof.
  intros Hs. split.
  - apply reachable_in_creation_order in Hs.
    unfold in_creation_order in Hs.
    unfold TaskService.listarTarefas, TaskRepository.listarTarefas.
    induction Hs as [|l ls _ IH Hl]; [constructor|].
    apply NoDup_cons. split; [|done].
    intros Hin. eapply Forall_forall in Hl; [|exact Hin]. lia.
  - intros l Hl. apply lookup_lt_is_Some.
    apply reachable_wf in Hs. by eapply Forall_forall in Hs.
Qed.

Lemma reachable_lists_each_task_once_witness :
  reachable same_ms ∧ NoDup (TaskService.listarTarefas same_ms).
Proof.
  assert (reachable same_ms) as Hr by apply reachable_run, reachable_initial.
  split; [exact Hr|].
  exact (proj1 (reachable_lists_each_task_once same_ms Hr)).
Defined.

End identity.

(** ** The setters of a task, called through a reference *)

Section setters.
Implicit Types (l : loc) (i j : Z) (s : State) (m : setter).

Lemma setter_method_id m t : Task.id (setter_method m t) = Task.id t.
Proof. by destruct m, t. Qed.

Lemma id_at_call m l s l' :
  id_at (heap (call (setter_method m) l s)) l' = id_at (heap s) l'.
Proof.
  unfold id_at. simpl. destruct (decide (l = l')) as [->|Hne].
  - rewrite list_lookup_alter_eq. destruct (heap s !! l') as [t|]; [|done].
    simpl. by rewrite setter_method_id.
  - by rewrite list_lookup_alter_ne.
Qed.

(** X12. A setter called through a reference writes one field of one object:
    the object behind the reference gets the new value in that field and keeps
    its other four fields; every other object, the number of objects and the
    listing are as before. *)
Theorem setter_writes_one_field m l s t :
  heap s !! l = Some t →
  heap (call (setter_method m) l s) !! l
  = Some (match m with
          | AlterarStatus newStatus =>
              Task.mk (Task.id t) (Task.title t) (Task.description t)
                (Task.dueDate t) newStatus
          | AlterarDescricao newDescription =>
              Task.mk (Task.id t) (Task.title t) newDescription
                (Task.dueDate t) (Task.status t)
          | AlterarDataVencimento newDueDate =>
              Task.mk (Task.id t) (Task.title t) (Task.description t)
                newDueDate (Task.status t)
          end)
  ∧ (∀ l', l' ≠ l → heap (call (setter_method m) l s) !! l' = heap s !! l')
  ∧ length (heap (call (setter_method m) l s)) = length (heap s)
  ∧ TaskService.listarTarefas (call (setter_method m) l s)
    = TaskService.listarTarefas s.
Proof.
  intros Hl. simpl. split_and!.
  - rewrite list_lookup_alter_eq, Hl. by destruct m.
  - intros l' Hne. by apply list_lookup_alter_ne.
  - apply length_alter.
  - done.
Qed.

Lemma setter_writes_one_field_witness :
  heap two_tasks !! 1%nat
  = Some (Task.new (now0 + 1) "Pay rent" "" (TimeValue 1704412800000))
  ∧ heap (call (setter_method (AlterarDescricao "by Friday")) 1 two_tasks) !! 1%nat
    = Some (Task.mk (now0 + 1) "Pay rent" "by Friday" (TimeValue 1704412800000)
              pendente)
  ∧ heap (call (setter_method (AlterarDescricao "by Friday")) 1 two_tasks) !! 0%nat
    = heap two_tasks !! 0%nat.
Proof.
  assert (heap two_tasks !! 1%nat
          = Some (Task.new (now0 + 1) "Pay rent" "" (TimeValue 1704412800000)))
    as Hl by reflexivity.
  destruct (setter_writes_one_field (AlterarDescricao "by Friday") 1 two_tasks _ Hl)
    as (Hnew & Hothers & _).
  split; [exact Hl|]. split; [exact Hnew|]. apply Hothers. discriminate.
Defined.

(** X13. No setter touches the id, so a setter call, on any object, changes
    nothing for the repository: the ids of the store, what [buscarTarefaPorId]
    returns for every id, and what is left after [removeTask] of any id are as
    without the call. *)
Theorem setter_keeps_identity m l s j :
  ids (call (setter_method m) l s) = ids s
  ∧ TaskRepository.buscarTarefaPorId j (call (setter_method m) l s)
    = TaskRepository.buscarTarefaPorId j s
  ∧ TaskService.removeTask j (call (setter_method m) l s)
    = call (setter_method m) l (TaskService.removeTask j s).
Proof.
  split_and!.
  - unfold ids. simpl tasks. apply list_omap_ext.
    apply Forall2_same_length_lookup_2; [done|].
    intros k l1 l2 Hl1 Hl2. assert (l2 = l1) as -> by congruence.
    apply id_at_call.
  - apply buscarTarefaPorId_ext; [done|]. intros l'. apply id_at_call.
  - unfold TaskService.removeTask, TaskRepository.removeTask, call. simpl.
    f_equal. apply list_filter_iff. intros l'. unfold has_id.
    pose proof (id_at_call m l s l') as Hid. simpl in Hid. by rewrite Hid.
Qed.

(** X14. Editing the description or the due date of a task and completing a
    task are independent: [taskDone] before or after the setter call gives the
    same state, also when both act on the same object. *)
Theorem taskDone_call_comm m l s i :
  (∀ newStatus, m ≠ AlterarStatus newStatus) →
  TaskService.taskDone i (call (setter_method m) l s)
  = call (setter_method m) l (TaskService.taskDone i s).
Proof.
  intros Hm. unfold TaskService.taskDone.
  rewrite (buscarTarefaPorId_ext i s (call (setter_method m) l s) eq_refl
             (id_at_call m l s)).
  destruct (TaskRepository.buscarTarefaPorId i s) as [l0|]; [|done].
  unfold call. simpl. f_equal.
  rewrite (list_alter_alter _ _ (heap s) l0 l). case_decide as Heq; [|done].
  subst l0. rewrite list_alter_alter_eq. apply list_alter_ext; [|done].
  intros t _. destruct m as [st|d|d], t; simpl; [by destruct (Hm st)|done..].
Qed.

Lemma taskDone_call_comm_witness :
  (∀ newStatus, AlterarDataVencimento InvalidDate ≠ AlterarStatus newStatus)
  ∧ TaskService.taskDone now0
      (call (setter_method (AlterarDataVencimento InvalidDate)) 0 two_tasks)
    = call (setter_method (AlterarDataVencimento InvalidDate)) 0
        (TaskService.taskDone now0 two_tasks).
Proof.
  assert (∀ newStatus, AlterarDataVencimento InvalidDate ≠ AlterarStatus newStatus)
    as Hm by discriminate.
  split; [exact Hm|].
  exact (taskDone_call_comm (AlterarDataVencimento InvalidDate) 0 two_tasks now0 Hm).
Defined.

(** X15. [alterarStatus] accepts any string at any time: called through the
    reference of a task that [taskDone] has just completed, it replaces
    ["concluída"] by whatever it is given, ["pendente"] included.  The order
    of the statuses is kept by the service, which makes no such call, not by
    the class. *)
Theorem alterarStatus_overwrites_concluida s i l newStatus :
  TaskRepository.buscarTarefaPorId i s = Some l →
  status_at (heap (TaskService.taskDone i s)) l = Some concluida
  ∧ status_at
      (heap (call (Task.alterarStatus newStatus) l (TaskService.taskDone i s))) l
    = Some newStatus.
Proof.
  intros Hfind.
  destruct (buscarTarefaPorId_found _ _ _ Hfind) as (_ & t & Ht & _).
  unfold status_at. simpl. rewrite list_lookup_alter_eq.
  rewrite taskDone_lookup, decide_True, Ht by done. done.
Qed.

Lemma alterarStatus_overwrites_concluida_witness :
  TaskRepository.buscarTarefaPorId now0 two_tasks = Some 0%nat
  ∧ status_at
      (heap (call (Task.alterarStatus pendente) 0 (TaskService.taskDone now0 two_tasks)))
      0
    = Some pendente.
Proof.
  split; [reflexivity|].
  exact (proj2 (alterarStatus_overwrites_concluida two_tasks now0 0 pendente eq_refl)).
Defined.

End setters.

(** ** What the container shows *)

Section rendering.
Implicit Types (l : loc) (i : Z) (s : State) (a : App) (r : Row) (k : nat).

Lemma row_task_row (h : list Task.t) l r : TaskView.row h l = Some r → row_task r = l.
Proof.
  unfold TaskView.row. intros (t & _ & ->)%fmap_Some. done.
Qed.

(** [omap] of a callback that drops nothing. *)
Lemma omap_lookup_total {A B} (f : A → option B) (xs : list A) k :
  Forall (λ x, is_Some (f x)) xs → omap f xs !! k = xs !! k ≫= f.
Proof.
  intros Hxs. revert k. induction Hxs as [|x xs [y Hy] _ IH]; intros k; [done|].
  csimpl. rewrite Hy. destruct k as [|k]; simpl; [done|apply IH].
Qed.


Lemma wf_row_total s : wf s → Forall (λ l, is_Some (TaskView.row (heap s) l)) (tasks s).
Proof.
  unfold wf. intros Hwf. eapply Forall_impl; [exact Hwf|]. intros l Hl.
  unfold TaskView.row. apply fmap_is_Some. by apply lookup_lt_is_Some.
Qed.

(** The element at position [k] of a rendered container is the element of the
    task at position [k] of the array. *)
Lemma renderListTask_lookup s k :
  wf s →
  TaskView.renderListTask s !! k = tasks s !! k ≫= TaskView.row (heap s).
Proof. intros Hwf. by apply omap_lookup_total, wf_row_total. Qed.

Lemma renderListTask_tasks s :
  wf s → row_task <$> TaskView.renderListTask s = tasks s.
Proof.
  intros Hwf. apply list_eq. intros k.
  rewrite list_lookup_fmap, renderListTask_lookup by done.
  destruct (tasks s !! k) as [l|] eqn:Hk; [|done]. simpl.
  eapply Forall_lookup_1 in Hk; [|by apply wf_row_total].
  destruct Hk as [r Hr]. rewrite Hr. simpl. f_equal. by eapply row_task_row.
Qed.




(** After every event the store is one that the service can reach and the
    container is what [renderListTask] makes of it. *)
Lemma app_reachable_rendered a :
  app_reachable a →
  reachable (store a) ∧ container a = TaskView.renderListTask (store a).
Proof.
  induction 1 as [|e a _ _ [Hs Hc]]; [split; [constructor|done]|].
  destruct e as [now ti de du|k|k]; simpl.
  - split; [|done]. apply (reachable_step (Create now ti de du)), Hs.
  - destruct (container a !! k) as [r|]; [|done].
    unfold TaskView.complete_click.
    destruct (id_at (heap (store a)) (row_task r)) as [i|]; [|done].
    split; [|done]. apply (reachable_step (MarkDone i)), Hs.
  - destruct (container a !! k) as [r|]; [|done].
    unfold TaskView.delete_click.
    destruct (id_at (heap (store a)) (row_task r)) as [i|]; [|done].
    split; [|done]. apply (reachable_step (Remove i)), Hs.
Qed.

Lemma app_reachable_dispatch_all es a :
  Forall event_modelled es → app_reachable a → app_reachable (dispatch_all es a).
Proof.
  intros Hes. revert a. induction Hes as [|e es He _ IH]; intros a Ha; [done|].
  simpl. apply IH. by constructor.
Qed.

(** The two runs of the scenario are states of the application. *)
Lemma app_reachable_two_rows : app_reachable two_rows.
Proof.
  apply app_reachable_dispatch_all; [|constructor].
  repeat constructor.
Qed.


(** The element at position [k] belongs to the task at position [k], which is
    an object of the heap and has an id. *)
Lemma app_reachable_row a k r :
  app_reachable a → container a !! k = Some r →
  tasks (store a) !! k = Some (row_task r)
  ∧ ∃ t, heap (store a) !! row_task r = Some t
      ∧ r = mkRow (row_task r) (Task.title t) (Task.description t)
              (Task.dueDate t) (Task.status t).
Proof.
  intros [Hs Hc]%app_reachable_rendered Hk. apply reachable_wf in Hs.
  rewrite Hc, renderListTask_lookup in Hk by done.
  destruct (tasks (store a) !! k) as [l|]; [|done]. simpl in Hk.
  pose proof (row_task_row _ _ _ Hk) as ->. split; [done|].
  unfold TaskView.row in Hk. apply fmap_Some in Hk as (t & Ht & ->).
  by exists t.
Qed.

End rendering.

(** ** What the listeners do to the container *)

Section listeners.
Implicit Types (l : loc) (i : Z) (s : State) (a : App) (r : Row) (k : nat).



(** X16. After any sequence of submissions and clicks, the container shows the
    stored tasks and nothing else: one element per task of the listing, in the
    order of the listing, each with the title, description, due date and status
    that its task has at that moment. *)
Theorem container_shows_the_store a :
  app_reachable a →
  row_task <$> container a = TaskService.listarTarefas (store a)
  ∧ ∀ k r, container a !! k = Some r →
      ∃ t, heap (store a) !! row_task r = Some t
        ∧ row_title r = Task.title t
        ∧ row_description r = Task.description t
        ∧ row_dueDate r = Task.dueDate t
        ∧ row_status r = Task.status t.
Proof.
  intros Ha. split.
  - destruct (app_reachable_rendered a Ha) as [Hs ->].
    by apply renderListTask_tasks, reachable_wf.
  - intros k r Hk.
    destruct (app_reachable_row a k r Ha Hk) as (_ & t & Ht & Hr).
    exists t. rewrite Hr. by simpl.
Qed.

Lemma container_shows_the_store_witness :
  app_reachable (dispatch (ClickComplete 1) two_rows)
  ∧ row_task <$> container (dispatch (ClickComplete 1) two_rows) = [0; 1]%nat.
Proof.
  assert (app_reachable (dispatch (ClickComplete 1) two_rows)) as Ha
    by (apply app_reachable_dispatch; [exact I|apply app_reachable_two_rows]).
  split; [exact Ha|].
  rewrite (proj1 (container_shows_the_store _ Ha)). reflexivity.
Defined.




















End listeners.
